(** * dfhist: a file-backed cache for dataframe-valued functions

    Shallow embedding of [src/dfhist/__init__.py] (classes [DFHist] and
    [VersionedFunc]) together with the small parts of the Python standard
    library the two classes rely on ([str.format], [fnmatch]/[glob],
    [sorted], [datetime] subtraction, [strftime]).

    Conventions of the model.
    - Strings are lists of characters ([str]).
    - Instants are integers counting microseconds, the resolution of
      [datetime]; [getctime] is read at that resolution.  The clock does
      not move while one operation runs.
    - The cache directory is a flat directory of regular files on a POSIX
      system: names are case sensitive, and writing a file sets its ctime
      to the current time, also when the file existed.  A file is
      addressed by its name inside the directory: the constant prefix
      [join(self.directory, _)] is left implicit in paths.  A name with a
      [/] in it would lie in a sub-directory, of which there is none:
      writing to it fails.
    - [pandas] is an external collaborator and is taken as an interface
      ([Pandas]); a [to_csv] that raises leaves the directory as it was.
    - The wrapped function is opaque: it is modelled by its outcome (a
      dataframe or a raised exception) and does not touch the cache
      directory; each call is recorded in a log. *)

From Stdlib Require Import List String Ascii ZArith NArith Bool Lia Arith.
From Stdlib Require Import DecimalString.
From Stdlib Require Import Sorting.Sorted Sorting.Permutation.
Import ListNotations.

Set Implicit Arguments.
Set Maximal Implicit Insertion.

Local Open Scope Z_scope.
Local Open Scope list_scope.

(** ** Strings *)

Definition str := list ascii.

Definition L (s : string) : str := list_ascii_of_string s.

Definition chr_eqb (a b : ascii) : bool := Ascii.eqb a b.

Fixpoint str_eqb (a b : str) : bool :=
  match a, b with
  | [], [] => true
  | x :: a', y :: b' => chr_eqb x y && str_eqb a' b'
  | _, _ => false
  end.

(** [needle in hay] for Python strings. *)
Fixpoint startswith (p s : str) : bool :=
  match p, s with
  | [], _ => true
  | x :: p', y :: s' => chr_eqb x y && startswith p' s'
  | _ :: _, [] => false
  end.

Fixpoint contains (needle hay : str) : bool :=
  startswith needle hay
  || match hay with
     | [] => false
     | _ :: hay' => contains needle hay'
     end.

Definition has_chr (c : ascii) (s : str) : bool := existsb (chr_eqb c) s.

(** ** Exceptions and the state-and-exception monad *)

Section Exceptions.

(** [E] is the type of the exceptions the wrapped function and the
    serializer may raise on their own. *)
Variable E : Type.

Inductive exn : Type :=
| ValueError (msg : string)
| NotImplementedError
| IndexError
| FormatError          (* KeyError, IndexError or ValueError of str.format *)
| OSError
| Raised (e : E).      (* raised by the wrapped function or by pandas *)

Inductive result (A : Type) : Type :=
| Ok (a : A)
| Err (e : exn).

End Exceptions.

Arguments ValueError {E} msg.
Arguments NotImplementedError {E}.
Arguments IndexError {E}.
Arguments FormatError {E}.
Arguments OSError {E}.
Arguments Raised {E} e.
Arguments Ok {E A} a.
Arguments Err {E A} e.

(** ** [str.format(timestamp=ts)]

    The scanner follows Python's format-string grammar for the fragment
    used by the program: literal text, the escapes [{{] and [}}], and the
    replacement field [{timestamp}].  Every other replacement field, a
    single [}] and an unterminated [{] raise (conversions, format specs
    and attribute lookups on the field are not part of the model and are
    reported as [None] as well). *)

Definition lbrace : ascii := "{"%char.
Definition rbrace : ascii := "}"%char.

Fixpoint format_go (ts : str) (field : option str) (p : str) : option str :=
  match field with
  | None =>
      match p with
      | [] => Some []
      | c :: p' =>
          if chr_eqb c lbrace then
            match p' with
            | d :: p'' =>
                if chr_eqb d lbrace
                then option_map (cons lbrace) (format_go ts None p'')
                else format_go ts (Some []) p'
            | [] => None
            end
          else if chr_eqb c rbrace then
            match p' with
            | d :: p'' =>
                if chr_eqb d rbrace
                then option_map (cons rbrace) (format_go ts None p'')
                else None
            | [] => None
            end
          else option_map (cons c) (format_go ts None p')
      end
  | Some acc =>
      match p with
      | [] => None
      | c :: p' =>
          if chr_eqb c rbrace then
            if str_eqb (rev acc) (L "timestamp")
            then option_map (app ts) (format_go ts None p')
            else None
          else format_go ts (Some (c :: acc)) p'
      end
  end.

Definition str_format (fmt ts : str) : option str := format_go ts None fmt.

(** ** [fnmatch] and [glob] inside one directory *)

Inductive tok : Type :=
| TStar                                   (* [*] *)
| TAny                                    (* [?] *)
| TLit (c : ascii)
| TClass (neg : bool) (items : list (ascii * ascii)).   (* [[seq]], [[!seq]] *)

Definition star : ascii := "*"%char.
Definition qmark : ascii := "?"%char.
Definition lbrack : ascii := "["%char.
Definition rbrack : ascii := "]"%char.
Definition bang : ascii := "!"%char.
Definition dash : ascii := "-"%char.
Definition dot : ascii := "."%char.
Definition slash : ascii := "/"%char.

(** The text up to the next []] and what follows it. *)
Fixpoint until_rbrack (p : str) : option (str * str) :=
  match p with
  | [] => None
  | c :: p' =>
      if chr_eqb c rbrack then Some ([], p')
      else match until_rbrack p' with
           | Some (body, rest) => Some (c :: body, rest)
           | None => None
           end
  end.

(** [class_split p] is called just after a [[]: it finds the closing []]
    as [fnmatch.translate] does (a leading [!] negates, a []] in first
    position is a member) and returns the negation flag, the members and
    the rest of the pattern. *)
Definition class_split (p : str) : option (bool * str * str) :=
  let '(neg, p1) :=
    match p with
    | c :: p' => if chr_eqb c bang then (true, p') else (false, p)
    | [] => (false, p)
    end in
  match p1 with
  | c :: p2 =>
      if chr_eqb c rbrack then
        match until_rbrack p2 with
        | Some (body, rest) => Some (neg, rbrack :: body, rest)
        | None => None
        end
      else
        match until_rbrack p1 with
        | Some (body, rest) => Some (neg, body, rest)
        | None => None
        end
  | [] => None
  end.

(** Members of a class: [a-b] is a range, anything else stands for itself. *)
Fixpoint class_items (body : str) : list (ascii * ascii) :=
  match body with
  | a :: rest =>
      match rest with
      | d :: b :: rest' =>
          if chr_eqb d dash then (a, b) :: class_items rest'
          else (a, a) :: class_items rest
      | _ => (a, a) :: class_items rest
      end
  | [] => []
  end.

Fixpoint translate_fuel (fuel : nat) (p : str) : list tok :=
  match fuel with
  | O => []
  | S fuel' =>
      match p with
      | [] => []
      | c :: p' =>
          if chr_eqb c star then TStar :: translate_fuel fuel' p'
          else if chr_eqb c qmark then TAny :: translate_fuel fuel' p'
          else if chr_eqb c lbrack then
            match class_split p' with
            | Some (neg, body, rest) =>
                TClass neg (class_items body) :: translate_fuel fuel' rest
            | None => TLit lbrack :: translate_fuel fuel' p'
            end
          else TLit c :: translate_fuel fuel' p'
      end
  end.

Definition translate (p : str) : list tok := translate_fuel (List.length p) p.

Definition in_range (c : ascii) (r : ascii * ascii) : bool :=
  (nat_of_ascii (fst r) <=? nat_of_ascii c)%nat
  && (nat_of_ascii c <=? nat_of_ascii (snd r))%nat.

Fixpoint tmatch (p : list tok) (s : str) : bool :=
  match p with
  | [] => match s with [] => true | _ :: _ => false end
  | TStar :: p' =>
      (fix skip (s : str) : bool :=
         tmatch p' s
         || match s with
            | [] => false
            | _ :: s' => skip s'
            end) s
  | TAny :: p' =>
      match s with
      | _ :: s' => tmatch p' s'
      | [] => false
      end
  | TLit c :: p' =>
      match s with
      | d :: s' => chr_eqb c d && tmatch p' s'
      | [] => false
      end
  | TClass neg items :: p' =>
      match s with
      | d :: s' => xorb neg (existsb (in_range d) items) && tmatch p' s'
      | [] => false
      end
  end.

Definition fnmatch (name pat : str) : bool := tmatch (translate pat) name.

Definition ishidden (s : str) : bool :=
  match s with
  | c :: _ => chr_eqb c dot
  | [] => false
  end.

(** [glob] for a pattern naming entries of the cache directory: the names
    that match the pattern, in directory order; names starting with a dot
    are skipped unless the pattern starts with a dot. *)
Definition glob_match (pat name : str) : bool :=
  fnmatch name pat && (ishidden pat || negb (ishidden name)).

Definition glob (names : list str) (pat : str) : list str :=
  filter (glob_match pat) names.


(** ** Calendar: the default timestamp formatter

    [strftime(t, "%Y-%m-%d-%H:%M:%S")] for a naive [datetime] given as
    microseconds since 1970-01-01 00:00:00 (proleptic Gregorian calendar,
    years 1 to 9999 as in [datetime]). *)

Definition digit (z : Z) : ascii := ascii_of_nat (48 + Z.to_nat (z mod 10)).

Definition pad2 (z : Z) : str := [digit (z / 10); digit z].

Definition pad4 (z : Z) : str :=
  [digit (z / 1000); digit (z / 100); digit (z / 10); digit z].

(** Year, month and day of the day number [days] (days since 1970-01-01). *)
Definition civil_from_days (days : Z) : Z * Z * Z :=
  let z := days + 719468 in
  let era := z / 146097 in
  let doe := z - era * 146097 in
  let yoe := (doe - doe / 1460 + doe / 36524 - doe / 146096) / 365 in
  let doy := doe - (365 * yoe + yoe / 4 - yoe / 100) in
  let mp := (5 * doy + 2) / 153 in
  let d := doy - (153 * mp + 2) / 5 + 1 in
  let m := if mp <? 10 then mp + 3 else mp - 9 in
  let y := yoe + era * 400 + (if m <=? 2 then 1 else 0) in
  (y, m, d).

Definition strftime (t : Z) : str :=
  let secs := t / 1000000 in
  let '(y, m, d) := civil_from_days (secs / 86400) in
  let sod := secs mod 86400 in
  pad4 y ++ [dash] ++ pad2 m ++ [dash] ++ pad2 d ++ [dash]
  ++ pad2 (sod / 3600) ++ L ":" ++ pad2 (sod / 60 mod 60) ++ L ":"
  ++ pad2 (sod mod 60).

(** ** [sorted(xs, key=...)]: a stable sort on keyed entries *)

Section Sorted.

Variable A : Type.

Fixpoint insert_by_key (x : Z * A) (l : list (Z * A)) : list (Z * A) :=
  match l with
  | [] => [x]
  | y :: l' =>
      if fst x <=? fst y then x :: l else y :: insert_by_key x l'
  end.

Fixpoint sort_by_key (l : list (Z * A)) : list (Z * A) :=
  match l with
  | [] => []
  | x :: l' => insert_by_key x (sort_by_key l')
  end.

Definition key_le (x y : Z * A) : Prop := fst x <= fst y.

End Sorted.

(** ** The external collaborators *)

(** [pandas]: dataframes, keyword-argument bags, [DataFrame.to_csv]
    (the text it writes) and [pandas.read_csv] (the dataframe it parses
    from a text), either of which may raise; [equals] is
    [DataFrame.equals]. *)
Class Pandas : Type := {
  E : Type;
  DataFrame : Type;
  kwargs : Type;
  index_false : kwargs;                 (* {"index": False} *)
  no_kwargs : kwargs;                   (* {} *)
  to_csv : kwargs -> DataFrame -> result E str;
  read_csv : kwargs -> str -> result E DataFrame;
  equals : DataFrame -> DataFrame -> Prop
}.

(** ** The world: clock, cache directory, and the log of calls *)

Record file : Type := mkFile {
  ctime : Z;          (* what getctime reports, in microseconds *)
  content : str
}.

Section Model.

Context {pandas : Pandas}.

(** Arguments of the wrapped function (positional and keyword). *)
Variable args : Type.

Record world : Type := mkWorld {
  now : Z;               (* the clock: microseconds since the epoch *)
  utcoffset : Z;         (* offset of local time from UTC, in seconds *)
  makedirs_ok : bool;    (* makedirs(directory, exist_ok=True) succeeds *)
  writable : bool;       (* files can be written in the directory *)
  files : list (str * file);   (* the directory, in listing order *)
  ticks : nat;           (* number of calls of tsformatter so far *)
  calls : list args      (* calls of the wrapped function so far *)
}.

Definition set_files (fs : list (str * file)) (w : world) : world :=
  mkWorld (now w) (utcoffset w) (makedirs_ok w) (writable w) fs
          (ticks w) (calls w).

Definition set_ticks (n : nat) (w : world) : world :=
  mkWorld (now w) (utcoffset w) (makedirs_ok w) (writable w) (files w)
          n (calls w).

Definition set_calls (cs : list args) (w : world) : world :=
  mkWorld (now w) (utcoffset w) (makedirs_ok w) (writable w) (files w)
          (ticks w) cs.

Definition M (A : Type) : Type := world -> result E A * world.

Definition ret {A} (a : A) : M A := fun w => (Ok a, w).

Definition raise {A} (e : exn E) : M A := fun w => (Err e, w).

Definition bind {A B} (m : M A) (k : A -> M B) : M B :=
  fun w =>
    match m w with
    | (Ok a, w') => k a w'
    | (Err e, w') => (Err e, w')
    end.

Definition lift {A} (r : result E A) : M A := fun w => (r, w).

End Model.

Declare Scope dfhist_scope.
Delimit Scope dfhist_scope with dfhist.
Notation "x <- m ;; k" := (bind m (fun x => k))
  (at level 100, m at next level, right associativity) : dfhist_scope.
Notation "m ;;; k" := (bind m (fun _ => k))
  (at level 100, right associativity) : dfhist_scope.

Local Open Scope dfhist_scope.

(** ** File-system primitives on the cache directory *)

Section FileSystem.

Context {pandas : Pandas}.
Variable args : Type.

Local Abbreviation world := (world args).
Local Abbreviation M := (M args).

Fixpoint lookup_file (name : str) (fs : list (str * file)) : option file :=
  match fs with
  | [] => None
  | (n, f) :: fs' => if str_eqb n name then Some f else lookup_file name fs'
  end.

(** Writing replaces the entry of that name, or adds a new entry. *)
Fixpoint upsert (name : str) (f : file) (fs : list (str * file))
  : list (str * file) :=
  match fs with
  | [] => [(name, f)]
  | (n, g) :: fs' =>
      if str_eqb n name then (n, f) :: fs' else (n, g) :: upsert name f fs'
  end.

(** Names that denote a regular file directly inside the directory. *)
Definition valid_name (name : str) : bool :=
  negb (str_eqb name []) && negb (has_chr slash name)
  && negb (str_eqb name (L ".")) && negb (str_eqb name (L "..")).

Definition makedirs (directory : str) : M unit :=
  fun w => if makedirs_ok w then (Ok tt, w) else (Err OSError, w).

(** Creating or truncating [name] and writing [text]; the file's ctime
    becomes the current time. *)
Definition write_file (name text : str) : M unit :=
  fun w =>
    if writable w && valid_name name
    then (Ok tt, set_files (upsert name (mkFile (now w) text) (files w)) w)
    else (Err OSError, w).

Definition read_file (name : str) : M str :=
  fun w =>
    match lookup_file name (files w) with
    | Some f => (Ok (content f), w)
    | None => (Err OSError, w)
    end.

Definition getctime (name : str) : M Z :=
  fun w =>
    match lookup_file name (files w) with
    | Some f => (Ok (ctime f), w)
    | None => (Err OSError, w)
    end.

Definition listdir : M (list str) :=
  fun w => (Ok (map fst (files w)), w).

(** [datetime.now()]: the naive local time. *)
Definition dt_now : M Z :=
  fun w => (Ok (now w + utcoffset w * 1000000), w).

(** [datetime.utcfromtimestamp(t)]: the naive UTC time. *)
Definition utcfromtimestamp (t : Z) : Z := t.

(** [timedelta.seconds] of a difference of [d] microseconds: the seconds
    field of the normalised (days, seconds, microseconds) triple. *)
Definition td_seconds (d : Z) : Z := (d / 1000000) mod 86400.

Fixpoint mapM {A B} (f : A -> M B) (l : list A) : M (list B) :=
  match l with
  | [] => ret []
  | x :: l' => y <- f x ;; ys <- mapM f l' ;; ret (y :: ys)
  end.

(** [sorted(paths, key=getctime)] *)
Definition sorted_by_getctime (paths : list str) : M (list str) :=
  keyed <- mapM (fun p => c <- getctime p ;; ret (c, p)) paths ;;
  ret (map snd (sort_by_key keyed)).

End FileSystem.

(** ** class DFHist *)

Section DFHistClass.

Context {pandas : Pandas}.
Variable args : Type.

Local Abbreviation world := (world args).
Local Abbreviation M := (M args).

Record DFHist : Type := mkDFHist {
  directory : str;
  expiry : option Z;
  format : str;
  tsformatter : nat -> Z -> str;   (* call number, local time *)
  method : str;
  marshal_params : kwargs;
  unmarshal_params : kwargs
}.

Definition csv : str := L "csv".

(** The default formatter ignores the call number. *)
Definition default_tsformatter : nat -> Z -> str := fun _ t => strftime t.

(** [DFHist.__init__] *)
Definition DFHist_init (directory format : str) (expire : option Z)
    (tsformatter : option (nat -> Z -> str)) (method : str)
    (marshal_params unmarshal_params : option kwargs) : M DFHist :=
  makedirs directory ;;;
  (match expire with
   | Some e =>
       if e <? 0 then raise (ValueError "expire must be nonnegative")
       else ret tt
   | None => ret tt
   end) ;;;
  (if contains (L "{timestamp}") format then ret tt
   else raise (ValueError "format must have {timestamp} in it somewhere")) ;;;
  let tsf := match tsformatter with
             | Some f => f
             | None => default_tsformatter
             end in
  mp <- match marshal_params with
        | Some p => ret p
        | None =>
            if str_eqb method csv then ret index_false
            else raise NotImplementedError
        end ;;
  up <- match unmarshal_params with
        | Some p => ret p
        | None =>
            if str_eqb method csv then ret no_kwargs
            else raise NotImplementedError
        end ;;
  ret (mkDFHist directory expire format tsf method mp up).

(** [self.tsformatter()] *)
Definition call_tsformatter (self : DFHist) : M str :=
  fun w =>
    (Ok (tsformatter self (ticks w) (now w + utcoffset w * 1000000)),
     set_ticks (S (ticks w)) w).

(** [self.format.format(timestamp=ts)] *)
Definition format_name (self : DFHist) (ts : str) : M str :=
  match str_format (format self) ts with
  | Some s => ret s
  | None => raise FormatError
  end.

(** [DFHist.marshal] *)
Definition marshal (self : DFHist) (df : DataFrame) : M str :=
  ts <- call_tsformatter self ;;
  path <- format_name self ts ;;
  if str_eqb (method self) csv then
    text <- lift (to_csv (marshal_params self) df) ;;
    write_file path text ;;;
    ret path
  else raise NotImplementedError.

(** [DFHist.unmarshal] *)
Definition unmarshal (self : DFHist) (path : str) : M DataFrame :=
  if str_eqb (method self) csv then
    text <- read_file path ;;
    lift (read_csv (unmarshal_params self) text)
  else raise NotImplementedError.

(** [DFHist.paths_to_versions] *)
Definition paths_to_versions (self : DFHist) : M (list str) :=
  pat <- format_name self [star] ;;
  names <- listdir ;;
  sorted_by_getctime (glob names pat).

End DFHistClass.

(** ** class VersionedFunc *)

Section VersionedFuncClass.

Context {pandas : Pandas}.
Variable args : Type.

Local Abbreviation world := (world args).
Local Abbreviation M := (M args).

Record VersionedFunc : Type := mkVersionedFunc {
  f : args -> result E DataFrame;
  dfhist : DFHist
}.

(** [DFHist.__call__]: decorating a function. *)
Definition decorate (self : DFHist) (f : args -> result E DataFrame)
  : VersionedFunc := mkVersionedFunc f self.

(** Calling the wrapped function [self.f]: the call is logged. *)
Definition call_f (self : VersionedFunc) (a : args) : M DataFrame :=
  fun w => (f self a, set_calls (calls w ++ [a]) w).

(** [versions[-1]] *)
Definition last_version (versions : list str) : option str :=
  match versions with
  | [] => None
  | v :: vs => Some (last vs v)
  end.

(** [VersionedFunc.retrieve] *)
Definition retrieve (self : VersionedFunc) : M DataFrame :=
  versions <- paths_to_versions (dfhist self) ;;
  match last_version versions with
  | Some most_recent_version => unmarshal (dfhist self) most_recent_version
  | None => raise IndexError
  end.

(** The freshness test of [VersionedFunc.__call__]: the value of
    [refresh] once the versions have been listed. *)
Definition refresh_needed (self : VersionedFunc) (versions : list str)
  : M bool :=
  match last_version versions with
  | None => ret true
  | Some latest =>
      t <- dt_now ;;
      c <- getctime latest ;;
      let elapsed := t - utcfromtimestamp c in
      match expiry (dfhist self) with
      | None => ret false
      | Some e => if td_seconds elapsed <? e then ret false else ret true
      end
  end.

(** [VersionedFunc.__call__] *)
Definition invoke (self : VersionedFunc) (a : args) : M DataFrame :=
  versions <- paths_to_versions (dfhist self) ;;
  refresh <- refresh_needed self versions ;;
  if (refresh : bool) then
    df <- call_f self a ;;
    marshal (dfhist self) df ;;;
    ret df
  else retrieve self.

(** [VersionedFunc.force] *)
Definition force (self : VersionedFunc) (a : args) : M DataFrame :=
  df <- call_f self a ;;
  marshal (dfhist self) df ;;;
  ret df.

End VersionedFuncClass.

(** ** Derived notions used in the statements *)

Section Notions.

Context {pandas : Pandas}.
Variable args : Type.

(** The world in which the wrapped function has just been called. *)
Definition called (a : args) (w : world args) : world args :=
  set_calls (calls w ++ [a]) w.


(** The configured serializer is lossless on [df]: reading back what
    [to_csv] writes, with the configured keyword arguments, gives a
    dataframe equal to [df]. *)
Definition lossless (d : DFHist) (df : DataFrame) : Prop :=
  exists text df',
    to_csv (marshal_params d) df = Ok text
    /\ read_csv (unmarshal_params d) text = Ok df'
    /\ equals df' df.

(** The expiry accepted by the constructor. *)
Definition expire_ok (expire : option Z) : Prop :=
  match expire with
  | Some e => 0 <= e
  | None => True
  end.

End Notions.

Definition ctime_of (fs : list (str * file)) (name : str) : Z :=
  match lookup_file name fs with
  | Some f => ctime f
  | None => 0
  end.

(** The artifacts of a directory for a glob pattern, in listing order. *)
Definition artifacts (fs : list (str * file)) (pat : str) : list str :=
  glob (map fst fs) pat.

(** The artifacts ordered as [paths_to_versions] orders them. *)
Definition versions_of (fs : list (str * file)) (pat : str) : list str :=
  map snd (sort_by_key (map (fun n => (ctime_of fs n, n)) (artifacts fs pat))).


(** ** A concrete setting for running the code

    [verbatim] is a serializer that stores a frame as its own text; the
    configuration is the one of the test suite ([tests.py]): file names
    [{timestamp}.csv] and a counter in place of the clock-based
    formatter. *)

Definition verbatim : Pandas := {|
  E := string;
  DataFrame := str;
  kwargs := unit;
  index_false := tt;
  no_kwargs := tt;
  to_csv := fun _ df => Ok df;
  read_csv := fun _ text => Ok text;
  equals := eq
|}.

(** [inferring] is a serializer of one-cell frames that infers types when
    reading, as [read_csv] does: a cell made of digits comes back as a
    number, whatever it was when written. *)
Inductive cell : Type :=
| CInt (n : N)
| CStr (s : str).

Definition cell_to_csv (c : cell) : str :=
  match c with
  | CInt n => L (NilZero.string_of_uint (N.to_uint n))
  | CStr s => s
  end.

Definition cell_read_csv (text : str) : cell :=
  match NilZero.uint_of_string (string_of_list_ascii text) with
  | Some u => CInt (N.of_uint u)
  | None => CStr text
  end.

Definition inferring : Pandas := {|
  E := string;
  DataFrame := cell;
  kwargs := unit;
  index_false := tt;
  no_kwargs := tt;
  to_csv := fun _ df => Ok (cell_to_csv df);
  read_csv := fun _ text => Ok (cell_read_csv text);
  equals := eq
|}.

Module Scenario.

(** The counter of the test suite: [str(self.count)] after incrementing. *)
Definition counter : nat -> Z -> str :=
  fun n _ => L (NilZero.string_of_uint (Nat.to_uint (S n))).

Definition config (expire : option Z) : @DFHist verbatim :=
  @mkDFHist verbatim (L "/tmp/cache") expire (L "{timestamp}.csv") counter
            csv tt tt.

Definition TEST_DF : @DataFrame verbatim := L "ints,strs;1,cake;2,ham".

Definition fn (expire : option Z) : @VersionedFunc verbatim unit :=
  decorate (config expire) (fun _ : unit => Ok TEST_DF).

(** An empty, writable cache directory at time [t] (in seconds), on UTC. *)
Definition empty_dir (t : Z) : @world unit :=
  mkWorld (t * 1000000) 0 true true [] 0 [].

(** The clock moves to [t] seconds. *)
Definition at_time (t : Z) (w : @world unit) : @world unit :=
  mkWorld (t * 1000000) (utcoffset w) (makedirs_ok w) (writable w)
          (files w) (ticks w) (calls w).




(** A wrapped function that raises. *)
Definition failing_fn : @VersionedFunc verbatim unit :=
  decorate (config None) (fun _ : unit => Err (Raised "boom"%string)).

(** The world after a first [invoke] on the empty directory at second
    100, and the same world with the clock moved to second [t]. *)
Definition first_call (expire : option Z) : @world unit :=
  snd (invoke (fn expire) tt (empty_dir 100)).

Definition first_call_at (expire : option Z) (t : Z) : @world unit :=
  at_time t (first_call expire).




(** A function returning the text cell ["1"], cached through [inferring]. *)
Definition text_cell_fn : @VersionedFunc inferring unit :=
  decorate (@mkDFHist inferring (L "/tmp/cache") None (L "{timestamp}.csv")
              counter csv tt tt)
           (fun _ : unit => Ok (CStr (L "1"))).

End Scenario.


(** ** Notions for the further properties *)

Section Sequences.

Context {pandas : Pandas}.
Variable args : Type.

(** Calling the decorated function once per argument list, in turn: the
    results, and the world left by the last call. *)
Fixpoint run_invokes (vf : VersionedFunc args) (l : list args)
    (w : world args) : list (result E DataFrame) * world args :=
  match l with
  | [] => ([], w)
  | a :: l' =>
      let '(r, w1) := invoke vf a w in
      let '(rs, w2) := run_invokes vf l' w1 in
      (r :: rs, w2)
  end.

End Sequences.





(** ** More concrete settings *)

Module Cases.

(** A directory where two matching files share the greatest ctime. *)
Definition tie_dir : @world unit :=
  mkWorld 9000000 0 true true
          [(L "a.csv", mkFile 5000000 (L "first"));
           (L "b.csv", mkFile 5000000 (L "second"));
           (L "c.csv", mkFile 3000000 (L "third"));
           (L "notes.txt", mkFile 7000000 (L "other"))]
          0 [].


End Cases.

(** * Properties *)

(** ** Strings *)

Lemma chr_eqb_refl (c : ascii) : chr_eqb c c = true.
Proof. apply Ascii.eqb_refl. Qed.

Lemma chr_eqb_eq (a b : ascii) : chr_eqb a b = true <-> a = b.
Proof. apply Ascii.eqb_eq. Qed.

Lemma str_eqb_eq (a b : str) : str_eqb a b = true <-> a = b.
Proof.
  revert b. induction a as [|x a IH]; intros [|y b]; simpl;
    try (split; [discriminate | discriminate]); [tauto|].
  rewrite andb_true_iff, chr_eqb_eq, IH.
  split; [intros [-> ->]; reflexivity | intros H; inversion H; auto].
Qed.

Lemma str_eqb_refl (a : str) : str_eqb a a = true.
Proof. apply str_eqb_eq. reflexivity. Qed.


(** ** The stable sort *)

Section SortFacts.

Variable A : Type.

Lemma insert_by_key_perm (x : Z * A) (l : list (Z * A)) :
  Permutation (x :: l) (insert_by_key x l).
Proof.
  induction l as [|y l IH]; simpl; [apply Permutation_refl|].
  destruct (fst x <=? fst y); [apply Permutation_refl|].
  eapply Permutation_trans; [apply perm_swap|].
  apply perm_skip, IH.
Qed.

Lemma sort_by_key_perm (l : list (Z * A)) :
  Permutation l (sort_by_key l).
Proof.
  induction l as [|x l IH]; simpl; [constructor|].
  eapply Permutation_trans; [apply perm_skip, IH|].
  apply insert_by_key_perm.
Qed.

Lemma insert_by_key_sorted (x : Z * A) (l : list (Z * A)) :
  StronglySorted key_le l -> StronglySorted key_le (insert_by_key x l).
Proof.
  induction 1 as [|y l Hs IH Hy]; simpl.
  - repeat constructor.
  - destruct (fst x <=? fst y) eqn:Hxy.
    + apply Z.leb_le in Hxy. constructor.
      * constructor; assumption.
      * constructor; [exact Hxy|].
        eapply Forall_impl; [|exact Hy].
        intros z Hz. unfold key_le in *. lia.
    + apply Z.leb_gt in Hxy. constructor; [exact IH|].
      eapply Permutation_Forall; [apply insert_by_key_perm|].
      constructor; [unfold key_le; lia | exact Hy].
Qed.

Lemma sort_by_key_sorted (l : list (Z * A)) :
  StronglySorted key_le (sort_by_key l).
Proof.
  induction l as [|x l IH]; simpl; [constructor|].
  apply insert_by_key_sorted, IH.
Qed.

(** Stability: entries with equal keys keep their relative order. *)
Lemma insert_by_key_filter (k : Z) (x : Z * A) (l : list (Z * A)) :
  StronglySorted key_le l ->
  filter (fun y => fst y =? k) (insert_by_key x l)
  = filter (fun y => fst y =? k) (x :: l).
Proof.
  induction 1 as [|y l Hs IH Hy]; [reflexivity|].
  simpl insert_by_key. destruct (fst x <=? fst y) eqn:Hxy; [reflexivity|].
  apply Z.leb_gt in Hxy.
  cbn [filter] in *. rewrite IH.
  destruct (fst x =? k) eqn:Hx; [|reflexivity].
  destruct (fst y =? k) eqn:Hy'; [|reflexivity].
  apply Z.eqb_eq in Hx, Hy'. lia.
Qed.

Lemma sort_by_key_stable (k : Z) (l : list (Z * A)) :
  filter (fun y => fst y =? k) (sort_by_key l)
  = filter (fun y => fst y =? k) l.
Proof.
  induction l as [|x l IH]; [reflexivity|].
  simpl sort_by_key. rewrite insert_by_key_filter by apply sort_by_key_sorted.
  cbn [filter]. rewrite IH. reflexivity.
Qed.

End SortFacts.

(** ** The cache directory *)

Lemma lookup_file_in (name : str) (fs : list (str * file)) :
  In name (map fst fs) -> exists f, lookup_file name fs = Some f.
Proof.
  induction fs as [|[n g] fs IH]; simpl; [tauto|].
  intros [->|Hin].
  - rewrite str_eqb_refl. eauto.
  - destruct (str_eqb n name); eauto.
Qed.

Lemma lookup_file_some_in (name : str) (fs : list (str * file)) (f : file) :
  lookup_file name fs = Some f -> In name (map fst fs).
Proof.
  induction fs as [|[n g] fs IH]; simpl; [discriminate|].
  destruct (str_eqb n name) eqn:Hn.
  - apply str_eqb_eq in Hn. auto.
  - auto.
Qed.

Lemma lookup_upsert_same (name : str) (f : file) (fs : list (str * file)) :
  lookup_file name (upsert name f fs) = Some f.
Proof.
  induction fs as [|[n g] fs IH]; simpl.
  - rewrite str_eqb_refl. reflexivity.
  - destruct (str_eqb n name) eqn:Hn; simpl; rewrite Hn; auto.
Qed.




Lemma upsert_in (name : str) (f : file) (fs : list (str * file)) :
  In name (map fst (upsert name f fs)).
Proof.
  eapply lookup_file_some_in, lookup_upsert_same.
Qed.

Lemma upsert_length (name : str) (f : file) (fs : list (str * file)) :
  List.length (upsert name f fs)
  = match lookup_file name fs with
    | Some _ => List.length fs
    | None => S (List.length fs)
    end.
Proof.
  induction fs as [|[n g] fs IH]; simpl; [reflexivity|].
  destruct (str_eqb n name); simpl; [reflexivity|].
  rewrite IH. destruct (lookup_file name fs); reflexivity.
Qed.

Lemma glob_in (names : list str) (pat name : str) :
  In name (glob names pat) <-> In name names /\ glob_match pat name = true.
Proof. apply filter_In. Qed.

(** ** Listing the versions *)

Section Listing.

Context {pandas : Pandas}.
Variable args : Type.

Implicit Types (w : world args) (d : DFHist).

Lemma mapM_getctime w (names : list str) :
  (forall n, In n names -> In n (map fst (files w))) ->
  mapM (fun p => c <- getctime p ;; ret (c, p)) names w
  = (Ok (map (fun n => (ctime_of (files w) n, n)) names), w).
Proof.
  induction names as [|n names IH]; intros Hin; [reflexivity|].
  cbn [mapM map]. unfold bind at 1. unfold bind at 1.
  unfold getctime at 1, ctime_of at 1.
  destruct (lookup_file_in n (files w)) as [g Hg]; [apply Hin; left; reflexivity|].
  rewrite Hg. unfold ret at 1. unfold bind at 1.
  rewrite IH by (intros; apply Hin; right; assumption).
  reflexivity.
Qed.

Lemma sorted_by_getctime_eq w (names : list str) :
  (forall n, In n names -> In n (map fst (files w))) ->
  sorted_by_getctime names w
  = (Ok (map snd (sort_by_key
                    (map (fun n => (ctime_of (files w) n, n)) names))), w).
Proof.
  intros Hin. unfold sorted_by_getctime, bind.
  rewrite mapM_getctime by exact Hin. reflexivity.
Qed.

(** What [paths_to_versions] computes, in closed form. *)
Lemma paths_to_versions_eq d w :
  paths_to_versions d w
  = match str_format (format d) [star] with
    | Some pat => (Ok (versions_of (files w) pat), w)
    | None => (Err FormatError, w)
    end.
Proof.
  unfold paths_to_versions, format_name, bind.
  destruct (str_format (format d) [star]) as [pat|]; [|reflexivity].
  unfold ret, listdir.
  rewrite sorted_by_getctime_eq; [reflexivity|].
  intros n Hn. apply glob_in in Hn. tauto.
Qed.

Lemma paths_to_versions_world d w : snd (paths_to_versions d w) = w.
Proof.
  rewrite paths_to_versions_eq.
  destruct (str_format (format d) [star]); reflexivity.
Qed.

End Listing.

Lemma versions_of_perm (fs : list (str * file)) (pat : str) :
  Permutation (versions_of fs pat) (artifacts fs pat).
Proof.
  unfold versions_of.
  eapply Permutation_trans;
    [apply Permutation_map, Permutation_sym, sort_by_key_perm|].
  rewrite map_map. simpl. rewrite map_id. apply Permutation_refl.
Qed.

Lemma versions_of_sorted (fs : list (str * file)) (pat : str) :
  StronglySorted (fun a b => ctime_of fs a <= ctime_of fs b)
                 (versions_of fs pat).
Proof.
  unfold versions_of.
  set (l := map (fun n => (ctime_of fs n, n)) (artifacts fs pat)).
  assert (Hkey : Forall (fun x => fst x = ctime_of fs (snd x)) (sort_by_key l)).
  { eapply Permutation_Forall; [apply sort_by_key_perm|].
    subst l. apply Forall_forall. intros x Hx.
    apply in_map_iff in Hx. destruct Hx as [n [<- _]]. reflexivity. }
  pose proof (sort_by_key_sorted l) as Hs.
  induction Hs as [|x s Hs IH Hx]; simpl; constructor.
  - apply IH. inversion Hkey; assumption.
  - inversion Hkey as [|? ? Hkx Hks]; subst.
    apply Forall_map. rewrite Forall_forall in *.
    intros y Hy. specialize (Hx y Hy). specialize (Hks y Hy).
    unfold key_le in Hx. simpl. lia.
Qed.

(** ** The operations, unfolded *)


Section Operations.

Context {pandas : Pandas}.
Variable args : Type.

Implicit Types (w : world args) (d : DFHist) (vf : VersionedFunc args).

Lemma force_eq vf (a : args) w :
  force vf a w
  = match f vf a with
    | Ok df =>
        match marshal (dfhist vf) df (called a w) with
        | (Ok _, w') => (Ok df, w')
        | (Err e, w') => (Err e, w')
        end
    | Err e => (Err e, called a w)
    end.
Proof.
  unfold force, bind, call_f, called. destruct (f vf a); [|reflexivity].
  destruct (marshal _ _ _) as [[p|e] w']; reflexivity.
Qed.

Lemma refresh_needed_world vf (versions : list str) w :
  snd (refresh_needed vf versions w) = w.
Proof.
  unfold refresh_needed. destruct (last_version versions); [|reflexivity].
  unfold bind, dt_now, getctime.
  destruct (lookup_file s (files w)); [|reflexivity].
  destruct (expiry (dfhist vf)) as [e|]; [|reflexivity].
  destruct (_ <? e); reflexivity.
Qed.

Lemma invoke_eq vf (a : args) w :
  invoke vf a w
  = match fst (paths_to_versions (dfhist vf) w) with
    | Ok versions =>
        match fst (refresh_needed vf versions w) with
        | Ok true => force vf a w
        | Ok false => retrieve vf w
        | Err e => (Err e, w)
        end
    | Err e => (Err e, w)
    end.
Proof.
  unfold invoke, bind at 1.
  pose proof (paths_to_versions_world (dfhist vf) w) as Hw.
  destruct (paths_to_versions (dfhist vf) w) as [[versions|e] w1];
    simpl in Hw; subst w1; simpl; [|reflexivity].
  unfold bind at 1.
  pose proof (refresh_needed_world vf versions w) as Hw.
  destruct (refresh_needed vf versions w) as [[[|]|e] w1];
    simpl in Hw; subst w1; reflexivity.
Qed.

Lemma retrieve_eq vf w :
  retrieve vf w
  = match fst (paths_to_versions (dfhist vf) w) with
    | Ok versions =>
        match last_version versions with
        | Some v => unmarshal (dfhist vf) v w
        | None => (Err IndexError, w)
        end
    | Err e => (Err e, w)
    end.
Proof.
  unfold retrieve, bind at 1.
  pose proof (paths_to_versions_world (dfhist vf) w) as Hw.
  destruct (paths_to_versions (dfhist vf) w) as [[versions|e] w1];
    simpl in Hw; subst w1; simpl; [|reflexivity].
  destruct (last_version versions); reflexivity.
Qed.

Lemma unmarshal_world d (path : str) w : snd (unmarshal d path w) = w.
Proof.
  unfold unmarshal. destruct (str_eqb (method d) csv); [|reflexivity].
  unfold bind, read_file. destruct (lookup_file path (files w)); reflexivity.
Qed.

Lemma retrieve_world vf w : snd (retrieve vf w) = w.
Proof.
  rewrite retrieve_eq.
  destruct (fst (paths_to_versions (dfhist vf) w)) as [versions|e];
    [|reflexivity].
  destruct (last_version versions); [apply unmarshal_world | reflexivity].
Qed.

(** What [marshal] does, case by case. *)
Lemma marshal_eq d (df : DataFrame) w :
  let ts := tsformatter d (ticks w) (now w + utcoffset w * 1000000) in
  let w1 := set_ticks (S (ticks w)) w in
  marshal d df w
  = match str_format (format d) ts with
    | None => (Err FormatError, w1)
    | Some path =>
        if str_eqb (method d) csv then
          match to_csv (marshal_params d) df with
          | Err e => (Err e, w1)
          | Ok text =>
              if writable w && valid_name path
              then (Ok path,
                    set_files (upsert path (mkFile (now w) text) (files w)) w1)
              else (Err OSError, w1)
          end
        else (Err NotImplementedError, w1)
    end.
Proof.
  unfold marshal, bind, call_tsformatter, format_name. simpl.
  destruct (str_format (format d) _) as [path|]; [|reflexivity].
  unfold ret at 1. destruct (str_eqb (method d) csv); [|reflexivity].
  unfold lift. destruct (to_csv (marshal_params d) df); [|reflexivity].
  unfold write_file. simpl.
  destruct (writable w && valid_name path); reflexivity.
Qed.


End Operations.

(** ** Listing, retrieving, recomputing *)

Section Recompute.

Context {pandas : Pandas}.
Variable args : Type.

Implicit Types (w : world args) (d : DFHist) (vf : VersionedFunc args).



(** C7: when the wrapped function raises, [force] and a recomputing
    [invoke] raise the same exception, and the files of the cache
    directory are what they were before the call. *)
Theorem wrapped_error_propagates vf (a : args) w (e : exn E) :
  f vf a = Err e ->
  force vf a w = (Err e, called a w)
  /\ files (snd (force vf a w)) = files w
  /\ (forall versions,
        fst (paths_to_versions (dfhist vf) w) = Ok versions ->
        fst (refresh_needed vf versions w) = Ok true ->
        invoke vf a w = (Err e, called a w)
        /\ files (snd (invoke vf a w)) = files w).
Proof.
  intros Hf.
  assert (Hforce : force vf a w = (Err e, called a w))
    by (rewrite force_eq, Hf; reflexivity).
  split; [exact Hforce|]. split; [rewrite Hforce; reflexivity|].
  intros versions Hv Hr. rewrite invoke_eq, Hv, Hr, Hforce.
  split; reflexivity.
Qed.

(** C10: on every recompute path ([force], and [invoke] when there is
    no version or the latest is stale) whose save succeeds, the caller
    gets the very dataframe the wrapped function returned, not one read
    back from the artifact. *)
Theorem recompute_returns_computed vf (a : args) w
    (df : DataFrame) (path : str) (w' : world args) :
  f vf a = Ok df ->
  marshal (dfhist vf) df (called a w) = (Ok path, w') ->
  force vf a w = (Ok df, w')
  /\ (forall versions,
        fst (paths_to_versions (dfhist vf) w) = Ok versions ->
        fst (refresh_needed vf versions w) = Ok true ->
        invoke vf a w = (Ok df, w')).
Proof.
  intros Hf Hm.
  assert (Hforce : force vf a w = (Ok df, w'))
    by (rewrite force_eq, Hf, Hm; reflexivity).
  split; [exact Hforce|].
  intros versions Hv Hr. rewrite invoke_eq, Hv, Hr. exact Hforce.
Qed.


End Recompute.

(** ** Saving and loading *)

Section Saving.

Context {pandas : Pandas}.
Variable args : Type.

Implicit Types (w : world args) (d : DFHist) (vf : VersionedFunc args).

Lemma marshal_calls d (df : DataFrame) w :
  calls (snd (marshal d df w)) = calls w.
Proof.
  rewrite marshal_eq. cbv zeta.
  destruct (str_format (format d) _) as [path|]; [|reflexivity].
  destruct (str_eqb (method d) csv); [|reflexivity].
  destruct (to_csv (marshal_params d) df); [|reflexivity].
  destruct (writable w && valid_name path); reflexivity.
Qed.

(** A successful save, spelled out. *)
Lemma marshal_ok_inv d (df : DataFrame) w (path : str) (w' : world args) :
  marshal d df w = (Ok path, w') ->
  exists text,
    str_format (format d)
      (tsformatter d (ticks w) (now w + utcoffset w * 1000000)) = Some path
    /\ str_eqb (method d) csv = true
    /\ to_csv (marshal_params d) df = Ok text
    /\ valid_name path = true
    /\ w' = set_files (upsert path (mkFile (now w) text) (files w))
                      (set_ticks (S (ticks w)) w).
Proof.
  rewrite marshal_eq. cbv zeta.
  destruct (str_format (format d) _) as [name|]; [|discriminate].
  destruct (str_eqb (method d) csv); [|discriminate].
  destruct (to_csv (marshal_params d) df) as [text|]; [|discriminate].
  destruct (writable w) ; simpl; [|discriminate].
  destruct (valid_name name) eqn:Hvalid; [|discriminate].
  intros H. inversion H; subst. exists text. auto.
Qed.




End Saving.

(** ** Configuration *)

Section Configuration.

Context {pandas : Pandas}.
Variable args : Type.

Implicit Types (w : world args) (d : DFHist).

Lemma unmarshal_unsupported d (path : str) w :
  str_eqb (method d) csv = false ->
  unmarshal d path w = (Err NotImplementedError, w).
Proof. intros Hm. unfold unmarshal. rewrite Hm. reflexivity. Qed.

Lemma marshal_unsupported d (df : DataFrame) w :
  str_eqb (method d) csv = false ->
  (exists e, fst (marshal d df w) = Err e)
  /\ files (snd (marshal d df w)) = files w
  /\ (forall name,
        str_format (format d)
          (tsformatter d (ticks w) (now w + utcoffset w * 1000000))
        = Some name ->
        fst (marshal d df w) = Err NotImplementedError).
Proof.
  intros Hm. rewrite marshal_eq. cbv zeta. rewrite Hm.
  destruct (str_format (format d) _) as [name|]; simpl.
  - split; [eauto|]. split; [reflexivity|]. reflexivity.
  - split; [eauto|]. split; [reflexivity|]. discriminate.
Qed.

(** C6 (as amended): for a method other than ["csv"], and with the
    directory, expiry and pattern checks passed, the constructor raises
    [NotImplementedError] exactly when [marshal_params] or
    [unmarshal_params] is left to its default; when both are supplied it
    returns a configuration, on which every [unmarshal] raises
    [NotImplementedError] and every [marshal] fails without writing
    (with [NotImplementedError] once the file name is formatted). *)
Theorem unsupported_method_surfaces (dir fmt : str) (expire : option Z)
    (tsf : option (nat -> Z -> str)) (meth : str)
    (mp up : option kwargs) w :
  str_eqb meth csv = false ->
  makedirs_ok w = true ->
  expire_ok expire ->
  contains (L "{timestamp}") fmt = true ->
  ((mp = None \/ up = None) ->
     DFHist_init dir fmt expire tsf meth mp up w
     = (Err NotImplementedError, w))
  /\ (forall p q, mp = Some p -> up = Some q ->
        exists d,
          DFHist_init dir fmt expire tsf meth mp up w = (Ok d, w)
          /\ method d = meth
          /\ (forall path w1,
                unmarshal d path w1 = (Err NotImplementedError, w1))
          /\ (forall df w1,
                (exists e, fst (marshal d df w1) = Err e)
                /\ files (snd (marshal d df w1)) = files w1
                /\ (forall name,
                      str_format (format d)
                        (tsformatter d (ticks w1)
                           (now w1 + utcoffset w1 * 1000000)) = Some name ->
                      fst (marshal d df w1) = Err NotImplementedError))).
Proof.
  intros Hmeth Hdir Hexp Hfmt.
  assert (Hpre :
             DFHist_init dir fmt expire tsf meth mp up w
             = (mp' <- match mp with
                       | Some p => ret p
                       | None => raise NotImplementedError
                       end ;;
                up' <- match up with
                       | Some p => ret p
                       | None => raise NotImplementedError
                       end ;;
                ret (mkDFHist dir expire fmt
                       match tsf with
                       | Some g => g
                       | None => default_tsformatter
                       end meth mp' up')) w).
  { unfold DFHist_init, bind at 1, makedirs. rewrite Hdir.
    unfold bind at 1.
    assert (Hcheck : match expire with
                     | Some e =>
                         if e <? 0
                         then raise (ValueError "expire must be nonnegative")
                         else ret tt
                     | None => ret tt
                     end w = (Ok tt, w)).
    { destruct expire as [e|]; [|reflexivity]. simpl in Hexp.
      destruct (e <? 0) eqn:He; [apply Z.ltb_lt in He; lia | reflexivity]. }
    rewrite Hcheck. unfold bind at 1. rewrite Hfmt. unfold ret at 1.
    rewrite Hmeth. reflexivity. }
  split.
  - intros Hnone. rewrite Hpre. unfold bind, ret, raise.
    destruct mp; [|reflexivity].
    destruct up; [|reflexivity].
    destruct Hnone; discriminate.
  - intros p q -> ->. eexists. split; [rewrite Hpre; reflexivity|].
    split; [reflexivity|]. split.
    + intros path w1. apply unmarshal_unsupported. exact Hmeth.
    + intros df w1. apply marshal_unsupported. exact Hmeth.
Qed.

End Configuration.

(** ** The name pattern and the discovery glob *)

Lemma translate_plain (c : ascii) (q : str) :
  chr_eqb c lbrack = false ->
  translate (c :: q)
  = (if chr_eqb c star then TStar
     else if chr_eqb c qmark then TAny else TLit c) :: translate q.
Proof.
  intros Hc. unfold translate. simpl.
  destruct (chr_eqb c star); [reflexivity|].
  destruct (chr_eqb c qmark); [reflexivity|].
  rewrite Hc. reflexivity.
Qed.

Lemma tmatch_star_here (p : list tok) (s : str) :
  tmatch p s = true -> tmatch (TStar :: p) s = true.
Proof.
  intros H. destruct s; simpl; rewrite H; reflexivity.
Qed.

Lemma tmatch_star_skip (p : list tok) (c : ascii) (s : str) :
  tmatch (TStar :: p) s = true -> tmatch (TStar :: p) (c :: s) = true.
Proof.
  intros H. simpl in *. rewrite H. apply orb_true_r.
Qed.

Lemma tmatch_star_app (p : list tok) (pre s : str) :
  tmatch p s = true -> tmatch (TStar :: p) (pre ++ s) = true.
Proof.
  intros H. induction pre as [|c pre IH].
  - apply tmatch_star_here, H.
  - apply (tmatch_star_skip p c (pre ++ s)), IH.
Qed.

(** A pattern character other than [[] matches itself. *)
Lemma tmatch_plain (c : ascii) (q s : str) :
  chr_eqb c lbrack = false ->
  tmatch (translate q) s = true ->
  tmatch (translate (c :: q)) (c :: s) = true.
Proof.
  intros Hc H. rewrite translate_plain by exact Hc.
  destruct (chr_eqb c star).
  - apply tmatch_star_skip, tmatch_star_here, H.
  - destruct (chr_eqb c qmark); simpl; [exact H|].
    rewrite chr_eqb_refl. exact H.
Qed.

(** Formatting the pattern with a timestamp and with the wildcard: the
    name obtained from a pattern free of [[] matches the glob obtained
    from it. *)
Lemma format_go_match (ts : str) (n : nat) :
  forall (p : str) (field : option str) (name : str),
    (List.length p <= n)%nat ->
    has_chr lbrack p = false ->
    format_go ts field p = Some name ->
    exists pat,
      format_go [star] field p = Some pat
      /\ tmatch (translate pat) name = true.
Proof.
  induction n as [|n IH]; intros p field name Hlen Hfree Hname.
  - destruct p; [|simpl in Hlen; lia].
    destruct field; simpl in *; [discriminate|].
    inversion Hname; subst. exists []. split; reflexivity.
  - destruct p as [|c p]; [apply (IH [] field name); simpl; auto; lia|].
    simpl in Hlen. simpl in Hfree. apply orb_false_iff in Hfree.
    destruct Hfree as [Hc Hfree].
    assert (Hc' : chr_eqb c lbrack = false).
    { unfold chr_eqb in *. rewrite Ascii.eqb_sym. exact Hc. }
    destruct field as [acc|]; cbn [format_go] in Hname |- *.
    + destruct (chr_eqb c rbrace).
      * destruct (str_eqb (rev acc) (L "timestamp")); [|discriminate].
        destruct (format_go ts None p) as [rest|] eqn:Hrest; [|discriminate].
        simpl in Hname. inversion Hname; subst name.
        destruct (IH p None rest) as (pat & Hpat & Hm); auto; [lia|].
        rewrite Hpat. exists (star :: pat). split; [reflexivity|].
        change (translate (star :: pat)) with (TStar :: translate pat).
        apply tmatch_star_app, Hm.
      * apply (IH p (Some (c :: acc)) name); auto. lia.
    + destruct (chr_eqb c lbrace) eqn:Hlb.
      * destruct p as [|c2 p2]; [discriminate|].
        destruct (chr_eqb c2 lbrace).
        -- destruct (format_go ts None p2) as [rest|] eqn:Hrest;
             [|discriminate].
           simpl in Hname. inversion Hname; subst name.
           simpl in Hfree. apply orb_false_iff in Hfree.
           simpl in Hlen.
           destruct (IH p2 None rest) as (pat & Hpat & Hm);
             try tauto; [lia|].
           rewrite Hpat. exists (lbrace :: pat). split; [reflexivity|].
           apply tmatch_plain; [reflexivity | exact Hm].
        -- apply (IH (c2 :: p2) (Some []) name); auto. lia.
      * destruct (chr_eqb c rbrace) eqn:Hrb.
        -- destruct p as [|c2 p2]; [discriminate|].
           destruct (chr_eqb c2 rbrace); [|discriminate].
           destruct (format_go ts None p2) as [rest|] eqn:Hrest;
             [|discriminate].
           simpl in Hname. inversion Hname; subst name.
           simpl in Hfree. apply orb_false_iff in Hfree.
           simpl in Hlen.
           destruct (IH p2 None rest) as (pat & Hpat & Hm);
             try tauto; [lia|].
           rewrite Hpat. exists (rbrace :: pat). split; [reflexivity|].
           apply tmatch_plain; [reflexivity | exact Hm].
        -- destruct (format_go ts None p) as [rest|] eqn:Hrest;
             [|discriminate].
           simpl in Hname. inversion Hname; subst name.
           destruct (IH p None rest) as (pat & Hpat & Hm); auto; [lia|].
           rewrite Hpat. exists (c :: pat). split; [reflexivity|].
           apply tmatch_plain; [exact Hc' | exact Hm].
Qed.

Lemma str_format_match (fmt ts name : str) :
  has_chr lbrack fmt = false ->
  str_format fmt ts = Some name ->
  exists pat,
    str_format fmt [star] = Some pat /\ fnmatch name pat = true.
Proof.
  intros Hfree Hname.
  apply (format_go_match ts (n := List.length fmt) fmt None); auto.
Qed.

Lemma format_go_hidden (ts : str) (p r : str) :
  ishidden p = true -> format_go ts None p = Some r -> ishidden r = true.
Proof.
  destruct p as [|c p]; [discriminate|]. simpl ishidden. intros Hc.
  apply chr_eqb_eq in Hc. subst c. cbn [format_go].
  change (chr_eqb dot lbrace) with false.
  change (chr_eqb dot rbrace) with false. cbv iota.
  destruct (format_go ts None p); [|discriminate].
  intros H. inversion H. reflexivity.
Qed.

Lemma digit_not_dot (z : Z) : chr_eqb (digit z) dot = false.
Proof.
  unfold digit. pose proof (Z.mod_pos_bound z 10 ltac:(lia)) as Hz.
  assert (Hn : (Z.to_nat (z mod 10) < 10)%nat) by lia.
  destruct (Z.to_nat (z mod 10)) as [|[|[|[|[|[|[|[|[|[|n]]]]]]]]]];
    try reflexivity; lia.
Qed.

Lemma strftime_head (t : Z) :
  exists c rest, strftime t = c :: rest /\ chr_eqb c dot = false.
Proof.
  unfold strftime. destruct (civil_from_days _) as [[y m] d].
  eexists _, _. split; [reflexivity|]. apply digit_not_dot.
Qed.

(** Inside a replacement field, what is produced starts with the
    timestamp. *)
Lemma format_go_field_prefix (ts : str) (p : str) :
  forall (acc r : str),
    format_go ts (Some acc) p = Some r -> exists rest, r = ts ++ rest.
Proof.
  induction p as [|c p IH]; intros acc r; cbn [format_go]; [discriminate|].
  destruct (chr_eqb c rbrace).
  - destruct (str_eqb (rev acc) (L "timestamp")); [|discriminate].
    destruct (format_go ts None p) as [rest|]; [|discriminate].
    intros H. inversion H. eauto.
  - apply IH.
Qed.

(** A name starting with a dot comes from a pattern starting with a dot,
    when the timestamp starts with something else. *)
Lemma format_go_hidden_inv (c : ascii) (ts p r : str) :
  chr_eqb c dot = false ->
  format_go (c :: ts) None p = Some r ->
  ishidden r = true -> ishidden p = true.
Proof.
  intros Hc. destruct p as [|x p]; cbn [format_go].
  - intros H. inversion H. discriminate.
  - destruct (chr_eqb x lbrace) eqn:Hxl.
    + apply chr_eqb_eq in Hxl. subst x.
      destruct p as [|y p]; [discriminate|].
      destruct (chr_eqb y lbrace).
      * destruct (format_go (c :: ts) None p); [|discriminate].
        intros H. inversion H. discriminate.
      * intros H Hhid. apply format_go_field_prefix in H.
        destruct H as [rest ->]. simpl in Hhid. congruence.
    + destruct (chr_eqb x rbrace) eqn:Hxr.
      * apply chr_eqb_eq in Hxr. subst x.
        destruct p as [|y p]; [discriminate|].
        destruct (chr_eqb y rbrace); [|discriminate].
        destruct (format_go (c :: ts) None p); [|discriminate].
        intros H. inversion H. discriminate.
      * destruct (format_go (c :: ts) None p); [|discriminate].
        intros H. inversion H. simpl. tauto.
Qed.

Section Discovery.

Context {pandas : Pandas}.
Variable args : Type.

Implicit Types (w : world args) (d : DFHist).

(** The name under which a save succeeds is matched by the glob. *)
Lemma saved_name_matches_glob d (df : DataFrame) w (path : str)
    (w' : world args) :
  marshal d df w = (Ok path, w') ->
  has_chr lbrack (format d) = false ->
  (ishidden path = true -> ishidden (format d) = true) ->
  exists pat,
    str_format (format d) [star] = Some pat /\ glob_match pat path = true.
Proof.
  intros Hm Hfree Hhid. apply marshal_ok_inv in Hm.
  destruct Hm as (text & Hname & _).
  destruct (str_format_match _ _ Hfree Hname) as (pat & Hpat & Hmatch).
  exists pat. split; [exact Hpat|].
  unfold glob_match. rewrite Hmatch. simpl.
  destruct (ishidden path) eqn:Hp; [|apply orb_true_r].
  rewrite (format_go_hidden _ _ (Hhid eq_refl) Hpat). reflexivity.
Qed.

(** A file of the directory that the glob matches is listed. *)
Lemma matched_file_is_listed d w (pat name : str) :
  str_format (format d) [star] = Some pat ->
  glob_match pat name = true ->
  In name (map fst (files w)) ->
  exists versions,
    paths_to_versions d w = (Ok versions, w) /\ In name versions.
Proof.
  intros Hpat Hglob Hin. exists (versions_of (files w) pat).
  rewrite paths_to_versions_eq, Hpat. split; [reflexivity|].
  eapply Permutation_in; [apply Permutation_sym, versions_of_perm|].
  apply glob_in. split; assumption.
Qed.

Lemma marshal_ok_in_files d (df : DataFrame) w (path : str)
    (w' : world args) :
  marshal d df w = (Ok path, w') -> In path (map fst (files w')).
Proof.
  intros Hm. apply marshal_ok_inv in Hm.
  destruct Hm as (text & _ & _ & _ & _ & ->). apply upsert_in.
Qed.


(** With the default formatter the condition on dots is met by itself:
    every artifact saved under a pattern without [[] is listed. *)
Corollary default_formatter_artifact_is_listed d (df : DataFrame) w
    (path : str) (w' : world args) :
  tsformatter d = default_tsformatter ->
  marshal d df w = (Ok path, w') ->
  has_chr lbrack (format d) = false ->
  exists versions,
    paths_to_versions d w' = (Ok versions, w') /\ In path versions.
Proof.
  intros Hdef Hm Hfree.
  destruct (saved_name_matches_glob _ _ _ Hm Hfree) as (pat & Hpat & Hglob).
  - pose proof Hm as Hm'. apply marshal_ok_inv in Hm'.
    destruct Hm' as (text & Hname & _).
    rewrite Hdef in Hname. unfold default_tsformatter in Hname.
    destruct (strftime_head (now w + utcoffset w * 1000000))
      as (c & rest & Hts & Hc).
    rewrite Hts in Hname. intros Hhid.
    eapply format_go_hidden_inv; [exact Hc | exact Hname | exact Hhid].
  - exact (matched_file_is_listed d w' _ Hpat Hglob
             (marshal_ok_in_files _ _ _ Hm)).
Qed.

End Discovery.

(** ** Freshness *)

Lemma td_seconds_within_day (d : Z) :
  0 <= d < 86400 * 1000000 -> td_seconds d = d / 1000000.
Proof.
  intros Hd. unfold td_seconds. apply Z.mod_small. split.
  - apply Z.div_pos; lia.
  - apply Z.div_lt_upper_bound; lia.
Qed.

Lemma seconds_lt_iff (d e : Z) :
  d / 1000000 < e <-> d < e * 1000000.
Proof.
  split; intros H.
  - pose proof (Z.mul_succ_div_gt d 1000000 ltac:(lia)). nia.
  - apply Z.div_lt_upper_bound; lia.
Qed.

(** [timedelta.seconds] forgets whole days. *)
Lemma td_seconds_forgets_days (d k : Z) :
  td_seconds (d + k * 86400000000) = td_seconds d.
Proof.
  unfold td_seconds.
  replace (d + k * 86400000000) with (d + (k * 86400) * 1000000) by ring.
  rewrite Z.div_add by lia. apply Z.mod_add. lia.
Qed.

Section Freshness.

Context {pandas : Pandas}.
Variable args : Type.

Implicit Types (w : world args) (vf : VersionedFunc args).

Lemma refresh_needed_eq vf (versions : list str) w (latest : str)
    (g : file) :
  last_version versions = Some latest ->
  lookup_file latest (files w) = Some g ->
  fst (refresh_needed vf versions w)
  = Ok match expiry (dfhist vf) with
       | None => false
       | Some e =>
           negb (td_seconds (now w + utcoffset w * 1000000 - ctime g) <? e)
       end.
Proof.
  intros Hlast Hg. unfold refresh_needed. rewrite Hlast.
  unfold bind, dt_now, getctime, utcfromtimestamp. rewrite Hg.
  destruct (expiry (dfhist vf)) as [e|]; [|reflexivity].
  destruct (_ <? e); reflexivity.
Qed.

(** With the local clock on UTC and less than a day elapsed since the
    latest artifact was created, [invoke] loads from the cache exactly
    when there is no expiry or the elapsed time is below the expiry, and
    recomputes otherwise. *)
Lemma invoke_within_a_day vf (a : args) w (versions : list str)
    (latest : str) (g : file) (elapsed : Z) :
  fst (paths_to_versions (dfhist vf) w) = Ok versions ->
  last_version versions = Some latest ->
  lookup_file latest (files w) = Some g ->
  utcoffset w = 0 ->
  now w = ctime g + elapsed ->
  0 <= elapsed < 86400 * 1000000 ->
  invoke vf a w
  = if match expiry (dfhist vf) with
       | None => true
       | Some e => elapsed <? e * 1000000
       end
    then (fst (unmarshal (dfhist vf) latest w), w)
    else force vf a w.
Proof.
  intros Hv Hlast Hg Hutc Hnow Hday.
  rewrite invoke_eq, Hv, (refresh_needed_eq vf versions w Hlast Hg).
  rewrite retrieve_eq, Hv, Hlast.
  assert (Hun : unmarshal (dfhist vf) latest w
                = (fst (unmarshal (dfhist vf) latest w), w)).
  { rewrite <- (unmarshal_world (dfhist vf) latest w) at 3.
    destruct (unmarshal (dfhist vf) latest w); reflexivity. }
  destruct (expiry (dfhist vf)) as [e|]; [|exact Hun].
  replace (now w + utcoffset w * 1000000 - ctime g) with elapsed by lia.
  rewrite td_seconds_within_day by exact Hday.
  destruct (elapsed <? e * 1000000) eqn:He.
  - apply Z.ltb_lt, seconds_lt_iff in He. apply Z.ltb_lt in He.
    rewrite He. exact Hun.
  - apply Z.ltb_ge in He.
    assert (Hge : (elapsed / 1000000 <? e) = false).
    { apply Z.ltb_ge. destruct (Z_lt_le_dec (elapsed / 1000000) e) as [Hlt|]; [|assumption].
      apply seconds_lt_iff in Hlt. lia. }
    rewrite Hge. reflexivity.
Qed.


(** Whole days of elapsed time are invisible to the freshness test. *)
Lemma refresh_needed_forgets_days vf (versions : list str) w
    (latest : str) (g : file) (k : Z) :
  last_version versions = Some latest ->
  lookup_file latest (files w) = Some g ->
  fst (refresh_needed vf versions
         (mkWorld (now w + k * 86400000000) (utcoffset w) (makedirs_ok w)
                  (writable w) (files w) (ticks w) (calls w)))
  = fst (refresh_needed vf versions w).
Proof.
  intros Hlast Hg.
  rewrite (refresh_needed_eq vf versions _ Hlast (g := g)) by exact Hg.
  rewrite (refresh_needed_eq vf versions w Hlast Hg). simpl.
  replace (now w + k * 86400000000 + utcoffset w * 1000000 - ctime g)
    with (now w + utcoffset w * 1000000 - ctime g + k * 86400000000) by ring.
  rewrite td_seconds_forgets_days. reflexivity.
Qed.

End Freshness.

(** * The code at concrete inputs *)

Section Runs.

Import Scenario.

Local Existing Instance verbatim.

(** The configuration of the scenarios is the one the constructor
    returns. *)
Example config_from_init :
  DFHist_init (L "/tmp/cache") (L "{timestamp}.csv") (Some 1) (Some counter)
              csv None None (empty_dir 100)
  = (Ok (config (Some 1)), empty_dir 100).
Proof. reflexivity. Qed.

(** The test suite's scenarios. *)

Example test_handles_no_cache_yet :
  fst (invoke (fn None) tt (empty_dir 100)) = Ok TEST_DF
  /\ map fst (files (snd (invoke (fn None) tt (empty_dir 100)))) = [L "1.csv"].
Proof. split; reflexivity. Qed.

Example test_uses_cache :
  let w1 := snd (invoke (fn None) tt (empty_dir 100)) in
  invoke (fn None) tt w1 = (Ok TEST_DF, w1) /\ calls w1 = [tt].
Proof. split; reflexivity. Qed.

Example test_cache_instant_expiry :
  let w1 := snd (invoke (fn (Some 0)) tt (empty_dir 100)) in
  let w2 := snd (invoke (fn (Some 0)) tt w1) in
  calls w2 = [tt; tt] /\ map fst (files w2) = [L "1.csv"; L "2.csv"].
Proof. split; reflexivity. Qed.

Example test_cache_expiry :
  let w1 := snd (invoke (fn (Some 1)) tt (empty_dir 100)) in
  let w2 := snd (invoke (fn (Some 1)) tt
                   (mkWorld 101500000 0 true true (files w1) (ticks w1)
                            (calls w1))) in
  calls w2 = [tt; tt] /\ map fst (files w2) = [L "1.csv"; L "2.csv"].
Proof. split; reflexivity. Qed.

Example test_force_rewrite :
  let w1 := snd (invoke (fn None) tt (empty_dir 100)) in
  let w2 := snd (force (fn None) tt w1) in
  calls w2 = [tt; tt] /\ map fst (files w2) = [L "1.csv"; L "2.csv"]
  /\ fst (retrieve (fn None) w2) = Ok TEST_DF.
Proof. repeat split; reflexivity. Qed.

(** C1, at the failing input: an artifact saved at second 100, an expiry
    of one second, the local clock on UTC.  One day later [invoke] still
    answers from the cache: the wrapped function is not called and no
    artifact is written, although 86400 seconds have elapsed. *)
Theorem invoke_one_day_later_reads_cache :
  map (fun x => (fst x, ctime (snd x))) (files (first_call (Some 1)))
    = [(L "1.csv", 100 * 1000000)]
  /\ now (first_call_at (Some 1) (100 + 86400)) = (100 + 86400) * 1000000
  /\ invoke (fn (Some 1)) tt (first_call_at (Some 1) (100 + 86400))
     = (Ok TEST_DF, first_call_at (Some 1) (100 + 86400))
  /\ calls (first_call_at (Some 1) (100 + 86400)) = [tt].
Proof. repeat split; reflexivity. Qed.

(** One second after the save the same call recomputes. *)
Example invoke_one_second_later_recomputes :
  calls (snd (invoke (fn (Some 1)) tt (first_call_at (Some 1) 101)))
    = [tt; tt]
  /\ map fst (files (snd (invoke (fn (Some 1)) tt
                            (first_call_at (Some 1) 101))))
     = [L "1.csv"; L "2.csv"].
Proof. split; reflexivity. Qed.

(** East of Greenwich a fresh artifact is taken for an old one: with the
    local clock one hour ahead of UTC and an expiry of one hour, the
    artifact saved in this very second is already stale. *)
Example invoke_east_of_utc_recomputes :
  let w0 := mkWorld 100000000 3600 true true [] 0 [] in
  let saved := snd (invoke (fn (Some 3600)) tt w0) in
  let w2 := snd (invoke (fn (Some 3600)) tt saved) in
  calls w2 = [tt; tt] /\ map fst (files w2) = [L "1.csv"; L "2.csv"].
Proof. split; reflexivity. Qed.



(** C6, counterexample: with both parameter bags supplied, the
    constructor accepts the method ["json"]. *)
Lemma json_configuration_is_accepted :
  DFHist_init (L "/tmp/cache") (L "{timestamp}.json") None None (L "json")
              (Some tt) (Some tt) (empty_dir 100)
  = (Ok (mkDFHist (L "/tmp/cache") None (L "{timestamp}.json")
                  default_tsformatter (L "json") tt tt),
     empty_dir 100).
Proof. reflexivity. Qed.


(** A formatter whose string starts with a dot produces a hidden file,
    which the glob [*.csv] skips. *)
Example hidden_artifact_not_found :
  let d := @mkDFHist verbatim (L "/tmp/cache") None (L "{timestamp}.csv")
             (fun _ _ => L ".tmp") csv tt tt in
  let saved := marshal d TEST_DF (empty_dir 100) in
  fst saved = Ok (L ".tmp.csv")
  /\ fst (paths_to_versions d (snd saved)) = Ok [].
Proof. split; reflexivity. Qed.

(** ** The theorems at concrete inputs *)



Lemma wrapped_error_propagates_witness :
  f failing_fn tt = Err (Raised "boom"%string)
  /\ force failing_fn tt (empty_dir 100)
     = (Err (Raised "boom"%string), called tt (empty_dir 100))
  /\ invoke failing_fn tt (empty_dir 100)
     = (Err (Raised "boom"%string), called tt (empty_dir 100))
  /\ files (snd (invoke failing_fn tt (empty_dir 100))) = [].
Proof.
  split; [reflexivity|].
  destruct (@wrapped_error_propagates verbatim unit failing_fn tt
              (empty_dir 100) (Raised "boom"%string) eq_refl)
    as (Hforce & _ & Hinvoke).
  split; [exact Hforce|].
  exact (Hinvoke [] eq_refl eq_refl).
Defined.

Lemma recompute_returns_computed_witness :
  f (fn None) tt = Ok TEST_DF
  /\ marshal (dfhist (fn None)) TEST_DF (called tt (empty_dir 100))
     = (Ok (L "1.csv"), first_call None)
  /\ force (fn None) tt (empty_dir 100) = (Ok TEST_DF, first_call None)
  /\ invoke (fn None) tt (empty_dir 100) = (Ok TEST_DF, first_call None).
Proof.
  split; [reflexivity|]. split; [reflexivity|].
  destruct (@recompute_returns_computed verbatim unit (fn None) tt
              (empty_dir 100) TEST_DF (L "1.csv") (first_call None)
              eq_refl eq_refl) as (Hforce & Hinvoke).
  split; [exact Hforce|].
  exact (Hinvoke [] eq_refl eq_refl).
Defined.




Lemma unsupported_method_surfaces_witness :
  str_eqb (L "json") csv = false
  /\ makedirs_ok (empty_dir 100) = true
  /\ expire_ok (Some 60)
  /\ contains (L "{timestamp}") (L "{timestamp}.json") = true
  /\ DFHist_init (L "/tmp/cache") (L "{timestamp}.json") (Some 60) None
       (L "json") None None (empty_dir 100)
     = (Err NotImplementedError, empty_dir 100).
Proof.
  assert (Hexp : expire_ok (Some 60)) by (simpl; lia).
  split; [reflexivity|]. split; [reflexivity|]. split; [exact Hexp|].
  split; [reflexivity|].
  apply (@unsupported_method_surfaces verbatim unit (L "/tmp/cache")
           (L "{timestamp}.json") (Some 60) None (L "json") None None
           (empty_dir 100) eq_refl eq_refl Hexp eq_refl).
  left. reflexivity.
Defined.


End Runs.

(** With a serializer that infers types, the recomputing call returns the
    wrapped function's own value (a text cell), and the cache hit that
    follows returns the value read back (a number). *)
Example normalisation_shows_on_cache_hit :
  fst (invoke Scenario.text_cell_fn tt (Scenario.empty_dir 100))
    = Ok (CStr (L "1"))
  /\ fst (invoke Scenario.text_cell_fn tt
            (snd (invoke Scenario.text_cell_fn tt (Scenario.empty_dir 100))))
     = Ok (CInt 1)
  /\ ~ lossless (dfhist Scenario.text_cell_fn) (CStr (L "1")).
Proof.
  split; [reflexivity|]. split; [reflexivity|].
  intros (text & df' & Hto & Hread & Heq).
  simpl in Hto, Hread, Heq. subst df'. inversion Hto; subst text.
  vm_compute in Hread. discriminate Hread.
Qed.

(** * Further properties of the code *)

(** ** The latest version *)

Lemma last_version_snoc (vs : list str) (v : str) :
  last_version vs = Some v <-> exists vs', vs = vs' ++ [v].
Proof.
  assert (Hlast : forall (l : list str) (x : str), last l x = last (x :: l) x)
    by (intros [|y l] x; reflexivity).
  split.
  - destruct vs as [|x vs]; [discriminate|]. simpl. intros H.
    inversion H as [Hv]. clear H.
    destruct (exists_last (l := x :: vs) ltac:(discriminate))
      as (vs' & y & Hy).
    exists vs'. subst v. rewrite Hlast, Hy, last_last. reflexivity.
  - intros (vs' & ->). destruct vs' as [|x vs']; [reflexivity|].
    simpl. f_equal. rewrite Hlast.
    change (x :: vs' ++ [v]) with ((x :: vs') ++ [v]). apply last_last.
Qed.

Lemma strongly_sorted_last (A : Type) (R : A -> A -> Prop)
    (l : list A) (x : A) :
  StronglySorted R (l ++ [x]) -> Forall (fun y => R y x) l.
Proof.
  induction l as [|y l IH]; simpl; intros Hs; [constructor|].
  inversion Hs as [|? ? Hs' Hy]; subst. constructor.
  - rewrite Forall_forall in Hy. apply Hy, in_or_app. right. left. reflexivity.
  - apply IH, Hs'.
Qed.

Lemma versions_of_in (fs : list (str * file)) (pat name : str) :
  In name (versions_of fs pat)
  <-> In name (map fst fs) /\ glob_match pat name = true.
Proof.
  rewrite <- glob_in. split; apply Permutation_in.
  - apply versions_of_perm.
  - apply Permutation_sym, versions_of_perm.
Qed.

Lemma filter_map_keyed (A B : Type) (g : A -> B) (p : B -> bool)
    (l : list A) :
  filter p (map g l) = map g (filter (fun x => p (g x)) l).
Proof.
  induction l as [|x l IH]; simpl; [reflexivity|].
  destruct (p (g x)); simpl; rewrite IH; reflexivity.
Qed.

Lemma map_eq_snoc (A B : Type) (g : A -> B) (l : list A) (l' : list B)
    (y : B) :
  map g l = l' ++ [y] -> exists l1 x, l = l1 ++ [x] /\ g x = y.
Proof.
  intros H. destruct l as [|a l]; [destruct l'; discriminate|].
  destruct (exists_last (l := a :: l) ltac:(discriminate)) as (l1 & x & Hx).
  exists l1, x. split; [exact Hx|].
  rewrite Hx, map_app in H. simpl in H.
  apply app_inj_tail in H. tauto.
Qed.

Section Latest.

Context {pandas : Pandas}.
Variable args : Type.

Implicit Types (w : world args) (d : DFHist) (vf : VersionedFunc args).

Lemma listing_inv d w (versions : list str) :
  fst (paths_to_versions d w) = Ok versions ->
  exists pat,
    str_format (format d) [star] = Some pat
    /\ versions = versions_of (files w) pat.
Proof.
  rewrite paths_to_versions_eq.
  destruct (str_format (format d) [star]) as [pat|]; [|discriminate].
  simpl. intros H. inversion H. eauto.
Qed.

Lemma latest_is_a_file d w (versions : list str) (latest : str) :
  fst (paths_to_versions d w) = Ok versions ->
  last_version versions = Some latest ->
  exists g, lookup_file latest (files w) = Some g.
Proof.
  intros Hv Hlast. apply listing_inv in Hv. destruct Hv as (pat & _ & ->).
  apply last_version_snoc in Hlast. destruct Hlast as (vs' & Hvs).
  apply lookup_file_in.
  apply (proj1 (versions_of_in (files w) pat latest)).
  rewrite Hvs. apply in_or_app. right. left. reflexivity.
Qed.

(** X4: the version that [versions[-1]] selects is a file of the
    directory that the glob matches, and no matching file has a greater
    ctime. *)
Theorem latest_version_is_newest d w (pat : str) (versions : list str)
    (latest : str) :
  str_format (format d) [star] = Some pat ->
  fst (paths_to_versions d w) = Ok versions ->
  last_version versions = Some latest ->
  In latest (artifacts (files w) pat)
  /\ forall name,
       In name (artifacts (files w) pat) ->
       ctime_of (files w) name <= ctime_of (files w) latest.
Proof.
  intros Hpat Hv Hlast.
  destruct (listing_inv _ _ Hv) as (pat' & Hpat' & ->).
  rewrite Hpat in Hpat'. inversion Hpat'. subst pat'.
  apply last_version_snoc in Hlast. destruct Hlast as (vs' & Hsnoc).
  assert (Hin : forall n, In n (artifacts (files w) pat)
                          <-> In n (versions_of (files w) pat)).
  { intros n. unfold artifacts. rewrite glob_in.
    symmetry. apply versions_of_in. }
  split; [apply Hin; rewrite Hsnoc; apply in_or_app; right; left; reflexivity|].
  intros name Hname. apply Hin in Hname.
  pose proof (versions_of_sorted (files w) pat) as Hs.
  rewrite Hsnoc in Hs. apply strongly_sorted_last in Hs.
  rewrite Hsnoc in Hname. apply in_app_or in Hname.
  destruct Hname as [Hname|[<-|[]]]; [|lia].
  rewrite Forall_forall in Hs. apply Hs, Hname.
Qed.

(** X5: among the matching files that share the greatest ctime, the one
    selected is the last in directory order (the sort is stable). *)
Theorem latest_version_tie_break d w (pat : str) (versions : list str)
    (latest : str) :
  str_format (format d) [star] = Some pat ->
  fst (paths_to_versions d w) = Ok versions ->
  last_version versions = Some latest ->
  last_version
    (filter (fun n => ctime_of (files w) n =? ctime_of (files w) latest)
            (artifacts (files w) pat))
  = Some latest.
Proof.
  intros Hpat Hv Hlast.
  destruct (listing_inv _ _ Hv) as (pat' & Hpat' & ->).
  rewrite Hpat in Hpat'. inversion Hpat'. subst pat'.
  apply last_version_snoc in Hlast. destruct Hlast as (vs' & Hsnoc).
  unfold versions_of in Hsnoc.
  set (mk := fun n => (ctime_of (files w) n, n)) in *.
  set (keyed := map mk (artifacts (files w) pat)) in *.
  apply map_eq_snoc in Hsnoc. destruct Hsnoc as (s' & x & Hsorted & Hx).
  assert (Hkey : fst x = ctime_of (files w) (snd x)).
  { assert (HF : Forall (fun y => fst y = ctime_of (files w) (snd y))
                        (sort_by_key keyed)).
    { eapply Permutation_Forall; [apply sort_by_key_perm|].
      apply Forall_forall. intros y Hy. apply in_map_iff in Hy.
      destruct Hy as (n & <- & _). reflexivity. }
    rewrite Forall_forall in HF. apply HF. rewrite Hsorted.
    apply in_or_app. right. left. reflexivity. }
  pose proof (sort_by_key_stable (fst x) keyed) as Hstable.
  rewrite Hsorted, filter_app in Hstable. simpl in Hstable.
  rewrite Z.eqb_refl in Hstable.
  unfold keyed in Hstable. rewrite filter_map_keyed in Hstable.
  symmetry in Hstable. apply map_eq_snoc in Hstable.
  destruct Hstable as (l1 & n0 & Hfilter & Hn0).
  apply last_version_snoc. exists l1.
  assert (Hlatest : n0 = latest) by (rewrite <- Hx, <- Hn0; reflexivity).
  subst n0. rewrite <- Hfilter.
  apply filter_ext. intros n. simpl. rewrite Hkey, Hx. reflexivity.
Qed.

End Latest.

(** ** Expiry *)

Lemma td_seconds_range (d : Z) : 0 <= td_seconds d < 86400.
Proof. unfold td_seconds. apply Z.mod_pos_bound. lia. Qed.

Section Expiry.

Context {pandas : Pandas}.
Variable args : Type.

Implicit Types (w : world args) (d : DFHist) (vf : VersionedFunc args).

(** The value of [refresh] when at least one version is listed. *)
Lemma refresh_with_history vf w (versions : list str) :
  fst (paths_to_versions (dfhist vf) w) = Ok versions ->
  versions <> [] ->
  exists elapsed,
    fst (refresh_needed vf versions w)
    = Ok match expiry (dfhist vf) with
         | None => false
         | Some e => negb (td_seconds elapsed <? e)
         end.
Proof.
  intros Hv Hne.
  destruct (last_version versions) as [latest|] eqn:Hlast;
    [|destruct versions; [congruence | discriminate]].
  destruct (latest_is_a_file _ _ Hv Hlast) as (g & Hg).
  eexists. apply (refresh_needed_eq vf versions w Hlast Hg).
Qed.

(** Without expiry and with a version listed, a call is a [retrieve]. *)
Lemma invoke_cached_without_expiry vf (a : args) w (versions : list str) :
  expiry (dfhist vf) = None ->
  fst (paths_to_versions (dfhist vf) w) = Ok versions ->
  versions <> [] ->
  invoke vf a w = (fst (retrieve vf w), w).
Proof.
  intros Hexp Hv Hne. rewrite invoke_eq, Hv.
  destruct (refresh_with_history vf w Hv Hne) as (elapsed & ->).
  rewrite Hexp. rewrite <- (retrieve_world vf w) at 3.
  destruct (retrieve vf w); reflexivity.
Qed.

(** Calls that leave the world alone can be repeated at will. *)
Lemma run_invokes_fixed vf w (r : result E DataFrame) (l : list args) :
  (forall a, invoke vf a w = (r, w)) ->
  run_invokes vf l w = (map (fun _ => r) l, w).
Proof.
  intros Hone. induction l as [|a l IH]; [reflexivity|].
  simpl. rewrite Hone, IH. reflexivity.
Qed.

(** X6: without expiry, once a version is listed, calls of the decorated
    function never call the wrapped function and never write: whatever the
    arguments, each call returns what [retrieve] returns, and the world
    stays as it is. *)
Theorem invokes_without_expiry_use_cache vf w (versions : list str)
    (l : list args) :
  expiry (dfhist vf) = None ->
  fst (paths_to_versions (dfhist vf) w) = Ok versions ->
  versions <> [] ->
  run_invokes vf l w = (map (fun _ => fst (retrieve vf w)) l, w).
Proof.
  intros Hexp Hv Hne. apply run_invokes_fixed. intros a.
  apply (invoke_cached_without_expiry vf a w Hexp Hv Hne).
Qed.

(** X7: with an expiry of zero (or below), every call of the decorated
    function recomputes: it does what [force] does, whatever the cache
    holds. *)
Theorem invoke_zero_expiry_recomputes vf (a : args) w (e : Z)
    (versions : list str) :
  expiry (dfhist vf) = Some e ->
  e <= 0 ->
  fst (paths_to_versions (dfhist vf) w) = Ok versions ->
  invoke vf a w = force vf a w.
Proof.
  intros Hexp He Hv. rewrite invoke_eq, Hv.
  destruct versions as [|v vs]; [reflexivity|].
  destruct (refresh_with_history vf w Hv ltac:(discriminate))
    as (elapsed & ->).
  rewrite Hexp. pose proof (td_seconds_range elapsed) as Hr.
  assert (Hlt : (td_seconds elapsed <? e) = false) by (apply Z.ltb_ge; lia).
  rewrite Hlt. reflexivity.
Qed.

(** X8: an expiry of one day or more never expires: once a version is
    listed, the call answers from the cache as if no expiry were set,
    however old the version is. *)
Theorem invoke_day_expiry_never_recomputes vf (a : args) w (e : Z)
    (versions : list str) :
  expiry (dfhist vf) = Some e ->
  86400 <= e ->
  fst (paths_to_versions (dfhist vf) w) = Ok versions ->
  versions <> [] ->
  invoke vf a w = retrieve vf w /\ snd (invoke vf a w) = w.
Proof.
  intros Hexp He Hv Hne.
  assert (Hinv : invoke vf a w = retrieve vf w).
  { rewrite invoke_eq, Hv.
    destruct (refresh_with_history vf w Hv Hne) as (elapsed & ->).
    rewrite Hexp. pose proof (td_seconds_range elapsed) as Hr.
    assert (Hlt : (td_seconds elapsed <? e) = true) by (apply Z.ltb_lt; lia).
    rewrite Hlt. reflexivity. }
  split; [exact Hinv|]. rewrite Hinv. apply retrieve_world.
Qed.

(** X11: a cache hit ignores the wrapped function and the arguments: two
    functions decorated with the same configuration share the versions,
    so [retrieve] gives both the same answer, and when the latest version
    is fresh a call of either returns it. *)
Theorem cache_hit_ignores_function d (f1 f2 : args -> result E DataFrame)
    (a1 a2 : args) w (versions : list str) :
  fst (paths_to_versions d w) = Ok versions ->
  fst (refresh_needed (decorate d f1) versions w) = Ok false ->
  retrieve (decorate d f1) w = retrieve (decorate d f2) w
  /\ invoke (decorate d f1) a1 w = invoke (decorate d f2) a2 w
  /\ invoke (decorate d f2) a2 w = retrieve (decorate d f2) w.
Proof.
  intros Hv Hfresh.
  assert (Hsame : refresh_needed (decorate d f2) versions w
                  = refresh_needed (decorate d f1) versions w)
    by reflexivity.
  split; [reflexivity|].
  rewrite !invoke_eq. cbn [dfhist decorate]. rewrite Hv, Hsame, Hfresh.
  split; reflexivity.
Qed.


End Expiry.

(** ** Saving, then loading *)


Section SaveThenLoad.

Context {pandas : Pandas}.
Variable args : Type.

Implicit Types (w : world args) (d : DFHist) (vf : VersionedFunc args).


End SaveThenLoad.

(** ** Formatting the name pattern *)



Section Formatting.

Context {pandas : Pandas}.
Variable args : Type.

Implicit Types (w : world args) (d : DFHist).


End Formatting.

(** ** The constructor *)

Section Constructor.

Context {pandas : Pandas}.
Variable args : Type.

Implicit Types (w : world args) (d : DFHist).

(** Case analysis on everything the constructor looks at. *)
Ltac constructor_cases dir fmt expire tsf meth mp up w :=
  unfold DFHist_init, bind, makedirs, ret, raise, expire_ok;
  destruct (makedirs_ok w);
  [destruct expire as [e|];
   [destruct (e <? 0) eqn:He;
    [apply Z.ltb_lt in He | apply Z.ltb_ge in He]|];
   destruct (contains (L "{timestamp}") fmt);
   destruct mp as [p|]; destruct up as [q|];
   destruct (str_eqb meth csv)|].

(** X1: the constructor returns a configuration exactly when the
    directory can be made, the expiry is absent or not negative, the
    pattern contains [{timestamp}], and the method is ["csv"] unless both
    parameter bags are given; the configuration holds the arguments, with
    the clock formatter, [{"index": False}] and [{}] in place of what was
    left out. *)
Theorem DFHist_init_accepts (dir fmt : str) (expire : option Z)
    (tsf : option (nat -> Z -> str)) (meth : str)
    (mp up : option kwargs) w :
  ((exists d, fst (DFHist_init dir fmt expire tsf meth mp up w) = Ok d)
   <-> makedirs_ok w = true
       /\ expire_ok expire
       /\ contains (L "{timestamp}") fmt = true
       /\ (str_eqb meth csv = true \/ (mp <> None /\ up <> None)))
  /\ (forall d,
        fst (DFHist_init dir fmt expire tsf meth mp up w) = Ok d ->
        d = mkDFHist dir expire fmt
              match tsf with Some g => g | None => default_tsformatter end
              meth
              match mp with Some p => p | None => index_false end
              match up with Some q => q | None => no_kwargs end).
Proof.
  split.
  - constructor_cases dir fmt expire tsf meth mp up w; simpl;
      (split;
       [ intros [d Hd]; try discriminate Hd;
         repeat split; auto; try lia; try discriminate;
         (left; reflexivity) || (right; split; discriminate)
       | intros (Hdir & Hexp & Hfmt & Hmeth);
         try discriminate; try lia;
         try (destruct Hmeth as [Hm|[Hm1 Hm2]];
              [discriminate Hm | congruence]);
         eexists; reflexivity ]).
  - intros d.
    constructor_cases dir fmt expire tsf meth mp up w; simpl;
      intros H; inversion H; reflexivity.
Qed.


End Constructor.

(** ** Which files count as versions *)











Section Versions.

Context {pandas : Pandas}.
Variable args : Type.

Implicit Types (w : world args) (d : DFHist).


End Versions.

(** ** Sequences of calls *)

Section CallSequences.

Context {pandas : Pandas}.
Variable args : Type.

Implicit Types (w : world args) (d : DFHist) (vf : VersionedFunc args).


(** X14: with an expiry of zero (or below) and a pattern that formats,
    every call in a sequence calls the wrapped function: the log grows by
    the argument lists, in order. *)
Theorem invokes_zero_expiry_call_each_time vf w (e : Z) (pat : str)
    (l : list args) :
  expiry (dfhist vf) = Some e ->
  e <= 0 ->
  str_format (format (dfhist vf)) [star] = Some pat ->
  calls (snd (run_invokes vf l w)) = calls w ++ l.
Proof.
  intros Hexp He Hpat. revert w.
  induction l as [|a l IH]; intros w; [simpl; rewrite app_nil_r; reflexivity|].
  assert (Hv : fst (paths_to_versions (dfhist vf) w)
               = Ok (versions_of (files w) pat))
    by (rewrite paths_to_versions_eq, Hpat; reflexivity).
  assert (Hinv : invoke vf a w = force vf a w).
  { rewrite invoke_eq, Hv.
    destruct (versions_of (files w) pat) as [|v vs] eqn:Hvs; [reflexivity|].
    rewrite <- Hvs in *.
    destruct (refresh_with_history vf w Hv) as (elapsed & ->);
      [rewrite Hvs; discriminate|].
    rewrite Hexp. pose proof (td_seconds_range elapsed) as Hr.
    assert (Hlt : (td_seconds elapsed <? e) = false) by (apply Z.ltb_ge; lia).
    rewrite Hlt. reflexivity. }
  assert (Hcalls : calls (snd (invoke vf a w)) = calls w ++ [a]).
  { rewrite Hinv, force_eq. destruct (f vf a) as [df|err]; [|reflexivity].
    pose proof (marshal_calls (dfhist vf) df (called a w)) as Hc.
    destruct (marshal _ _ _) as [[p|err] w']; exact Hc. }
  simpl. destruct (invoke vf a w) as [r w1]. simpl in Hcalls.
  specialize (IH w1). destruct (run_invokes vf l w1) as [rs w2].
  simpl in *. rewrite IH, Hcalls, <- app_assoc. reflexivity.
Qed.


End CallSequences.

(** ** The default formatter *)









Section DefaultFormatter.

Context {pandas : Pandas}.
Variable args : Type.

Implicit Types (w : world args) (d : DFHist).


End DefaultFormatter.

(** ** The further properties at concrete inputs *)

Section MoreRuns.

Import Scenario Cases.

Local Existing Instance verbatim.

Lemma DFHist_init_accepts_witness :
  (makedirs_ok (empty_dir 100) = true
   /\ expire_ok (Some 60)
   /\ contains (L "{timestamp}") (L "{timestamp}.csv") = true
   /\ (str_eqb csv csv = true \/ (@None unit <> None /\ @None unit <> None)))
  /\ exists d,
       fst (DFHist_init (L "/tmp/cache") (L "{timestamp}.csv") (Some 60)
              None csv None None (empty_dir 100)) = Ok d.
Proof.
  assert (H : makedirs_ok (empty_dir 100) = true
              /\ expire_ok (Some 60)
              /\ contains (L "{timestamp}") (L "{timestamp}.csv") = true
              /\ (str_eqb csv csv = true
                  \/ (@None unit <> None /\ @None unit <> None))).
  { split; [reflexivity|]. split; [simpl; lia|]. split; [reflexivity|].
    left. reflexivity. }
  split; [exact H|].
  exact (proj2 (proj1 (@DFHist_init_accepts verbatim unit (L "/tmp/cache")
                         (L "{timestamp}.csv") (Some 60) None csv None None
                         (empty_dir 100))) H).
Defined.



Lemma latest_version_is_newest_witness :
  str_format (format (config None)) [star] = Some (L "*.csv")
  /\ fst (paths_to_versions (config None) tie_dir)
     = Ok [L "c.csv"; L "a.csv"; L "b.csv"]
  /\ In (L "b.csv") (artifacts (files tie_dir) (L "*.csv"))
  /\ forall name,
       In name (artifacts (files tie_dir) (L "*.csv")) ->
       ctime_of (files tie_dir) name <= ctime_of (files tie_dir) (L "b.csv").
Proof.
  split; [reflexivity|]. split; [reflexivity|].
  apply (@latest_version_is_newest verbatim unit (config None) tie_dir
           (L "*.csv") [L "c.csv"; L "a.csv"; L "b.csv"] (L "b.csv"));
    reflexivity.
Defined.

Lemma latest_version_tie_break_witness :
  fst (paths_to_versions (config None) tie_dir)
    = Ok [L "c.csv"; L "a.csv"; L "b.csv"]
  /\ last_version
       (filter (fun n => ctime_of (files tie_dir) n
                         =? ctime_of (files tie_dir) (L "b.csv"))
               (artifacts (files tie_dir) (L "*.csv")))
     = Some (L "b.csv").
Proof.
  split; [reflexivity|].
  apply (@latest_version_tie_break verbatim unit (config None) tie_dir
           (L "*.csv") [L "c.csv"; L "a.csv"; L "b.csv"] (L "b.csv"));
    reflexivity.
Defined.

Lemma invokes_without_expiry_use_cache_witness :
  expiry (dfhist (fn None)) = None
  /\ fst (paths_to_versions (dfhist (fn None)) (first_call None))
     = Ok [L "1.csv"]
  /\ run_invokes (fn None) [tt; tt; tt] (first_call None)
     = (map (fun _ => fst (retrieve (fn None) (first_call None))) [tt; tt; tt],
        first_call None).
Proof.
  split; [reflexivity|]. split; [reflexivity|].
  apply (@invokes_without_expiry_use_cache verbatim unit (fn None)
           (first_call None) [L "1.csv"] [tt; tt; tt] eq_refl eq_refl).
  discriminate.
Defined.

Lemma invoke_zero_expiry_recomputes_witness :
  expiry (dfhist (fn (Some 0))) = Some 0
  /\ fst (paths_to_versions (dfhist (fn (Some 0))) (first_call (Some 0)))
     = Ok [L "1.csv"]
  /\ invoke (fn (Some 0)) tt (first_call (Some 0))
     = force (fn (Some 0)) tt (first_call (Some 0)).
Proof.
  split; [reflexivity|]. split; [reflexivity|].
  apply (@invoke_zero_expiry_recomputes verbatim unit (fn (Some 0)) tt
           (first_call (Some 0)) 0 [L "1.csv"] eq_refl);
    [lia | reflexivity].
Defined.

Lemma invoke_day_expiry_never_recomputes_witness :
  expiry (dfhist (fn (Some 86400))) = Some 86400
  /\ now (first_call_at (Some 86400) 31536000) = 31536000 * 1000000
  /\ invoke (fn (Some 86400)) tt (first_call_at (Some 86400) 31536000)
     = retrieve (fn (Some 86400)) (first_call_at (Some 86400) 31536000)
  /\ snd (invoke (fn (Some 86400)) tt (first_call_at (Some 86400) 31536000))
     = first_call_at (Some 86400) 31536000.
Proof.
  split; [reflexivity|]. split; [reflexivity|].
  apply (@invoke_day_expiry_never_recomputes verbatim unit (fn (Some 86400))
           tt (first_call_at (Some 86400) 31536000) 86400 [L "1.csv"]
           eq_refl);
    [lia | reflexivity | discriminate].
Defined.


Lemma cache_hit_ignores_function_witness :
  fst (paths_to_versions (config None) (first_call None)) = Ok [L "1.csv"]
  /\ invoke (decorate (config None) (f (fn None))) tt (first_call None)
     = invoke (decorate (config None) (f failing_fn)) tt (first_call None)
  /\ fst (invoke (decorate (config None) (f failing_fn)) tt (first_call None))
     = Ok TEST_DF.
Proof.
  split; [reflexivity|].
  destruct (@cache_hit_ignores_function verbatim unit (config None)
              (f (fn None)) (f failing_fn) tt tt (first_call None)
              [L "1.csv"] eq_refl eq_refl) as (_ & Hsame & Hhit).
  split; [exact Hsame|]. rewrite Hhit. reflexivity.
Defined.



Lemma invokes_zero_expiry_call_each_time_witness :
  expiry (dfhist (fn (Some 0))) = Some 0
  /\ str_format (format (dfhist (fn (Some 0)))) [star] = Some (L "*.csv")
  /\ calls (snd (run_invokes (fn (Some 0)) [tt; tt; tt] (empty_dir 100)))
     = calls (empty_dir 100) ++ [tt; tt; tt].
Proof.
  split; [reflexivity|]. split; [reflexivity|].
  apply (@invokes_zero_expiry_call_each_time verbatim unit (fn (Some 0))
           (empty_dir 100) 0 (L "*.csv") [tt; tt; tt] eq_refl);
    [lia | reflexivity].
Defined.



End MoreRuns.
